(** * TheraReach: the tic-tac-toe robot (src/TTTRobot.py)

    A shallow embedding of the game rule engine ([check_win], [check_draw],
    [get_robot_move]), of the block inventory ([get_next_available_block]),
    of the smooth servo motion ([move_servo_smoothly],
    [move_arm_to_position]) and of the game loop ([wait_for_player_move],
    [run_game]). *)

From Stdlib Require Import ZArith List Bool Lia QArith Lqa Permutation.
Import ListNotations.
Open Scope Z_scope.

(** ** Board: a 3x3 numpy integer array.

    Cells hold Python ints: 0 = empty, 1 = player (blue), 2 = robot (red).
    Every index the source uses comes from [range(3)] or a literal in
    [0..2], so indices are the three values of [idx]. *)

Inductive idx := I0 | I1 | I2.

Definition range3 : list idx := [I0; I1; I2].

Definition idx_to_nat (i : idx) : nat :=
  match i with I0 => 0 | I1 => 1 | I2 => 2 end.

Definition idx_eq_dec (i j : idx) : {i = j} + {i <> j}.
Proof. decide equality. Defined.

Definition coord := (idx * idx)%type.

Record row := mkRow { c0 : Z; c1 : Z; c2 : Z }.
Record board := mkBoard { r0 : row; r1 : row; r2 : row }.

Definition row_get (r : row) (c : idx) : Z :=
  match c with I0 => c0 r | I1 => c1 r | I2 => c2 r end.

Definition row_set (r : row) (c : idx) (v : Z) : row :=
  match c with
  | I0 => mkRow v (c1 r) (c2 r)
  | I1 => mkRow (c0 r) v (c2 r)
  | I2 => mkRow (c0 r) (c1 r) v
  end.

(** [board[r, c]] *)
Definition get (b : board) (r c : idx) : Z :=
  match r with
  | I0 => row_get (r0 b) c
  | I1 => row_get (r1 b) c
  | I2 => row_get (r2 b) c
  end.

(** [board[r, c] = v] *)
Definition set (b : board) (r c : idx) (v : Z) : board :=
  match r with
  | I0 => mkBoard (row_set (r0 b) c v) (r1 b) (r2 b)
  | I1 => mkBoard (r0 b) (row_set (r1 b) c v) (r2 b)
  | I2 => mkBoard (r0 b) (r1 b) (row_set (r2 b) c v)
  end.

(** [np.array(rows)] for a 3x3 nested list literal. *)
Definition of_rows (a b c : Z * Z * Z) : board :=
  let '(a0, a1, a2) := a in
  let '(b0, b1, b2) := b in
  let '(d0, d1, d2) := c in
  mkBoard (mkRow a0 a1 a2) (mkRow b0 b1 b2) (mkRow d0 d1 d2).

(** [np.zeros((3, 3), dtype=int)] *)
Definition empty_board : board := of_rows (0, 0, 0) (0, 0, 0) (0, 0, 0).

(** ** [check_win(board, player)] *)

(** [np.all(board[row, :] == player)] *)
Definition row_all (b : board) (r : idx) (player : Z) : bool :=
  forallb (fun c => get b r c =? player) range3.

(** [np.all(board[:, col] == player)] *)
Definition col_all (b : board) (c : idx) (player : Z) : bool :=
  forallb (fun r => get b r c =? player) range3.

Definition check_win (b : board) (player : Z) : bool :=
  existsb (fun r => row_all b r player) range3
  || existsb (fun c => col_all b c player) range3
  || ((get b I0 I0 =? player) && (get b I1 I1 =? player) && (get b I2 I2 =? player))
  || ((get b I0 I2 =? player) && (get b I1 I1 =? player) && (get b I2 I0 =? player)).

(** ** [check_draw(board)]: [0 not in board], i.e. no cell equals 0. *)
Definition check_draw (b : board) : bool :=
  negb (existsb (fun r => existsb (fun c => get b r c =? 0) range3) range3).

(** ** [get_robot_move()]

    The source reads and writes the global [board]; the embedding passes
    it in and returns it with the move.  [random.shuffle(corners)] and
    [random.shuffle(edges)] are the only nondeterminism: the shuffled lists
    are arguments. *)

(** [for row in range(3): for col in range(3):] *)
Definition row_major : list coord :=
  flat_map (fun r => map (fun c => (r, c)) range3) range3.

(** One trial loop: for each empty cell, place [mark], test [check_win],
    reset the cell to 0 and return on a win. *)
Fixpoint try_cells (mark : Z) (cells : list coord) (b : board)
  : option coord * board :=
  match cells with
  | [] => (None, b)
  | (r, c) :: rest =>
      if get b r c =? 0 then
        let b1 := set b r c mark in
        if check_win b1 mark then (Some (r, c), set b1 r c 0)
        else try_cells mark rest (set b1 r c 0)
      else try_cells mark rest b
  end.

(** [for row, col in cells: if board[row, col] == 0: return row, col] *)
Fixpoint first_free (cells : list coord) (b : board) : option coord :=
  match cells with
  | [] => None
  | (r, c) :: rest => if get b r c =? 0 then Some (r, c) else first_free rest b
  end.

Definition corners0 : list coord := [(I0, I0); (I0, I2); (I2, I0); (I2, I2)].
Definition edges0 : list coord := [(I0, I1); (I1, I0); (I1, I2); (I2, I1)].

(** [corners] and [edges] are the lists after [random.shuffle]; falling
    off the end of the function returns [None]. *)
Definition get_robot_move (corners edges : list coord) (b : board)
  : option coord * board :=
  let '(m1, b1) := try_cells 2 row_major b in
  match m1 with
  | Some m => (Some m, b1)
  | None =>
      let '(m2, b2) := try_cells 1 row_major b1 in
      match m2 with
      | Some m => (Some m, b2)
      | None =>
          if get b2 I1 I1 =? 0 then (Some (I1, I1), b2)
          else match first_free corners b2 with
               | Some m => (Some m, b2)
               | None => (first_free edges b2, b2)
               end
      end
  end.

(** ** Block inventory: [red_blocks_used], [blue_blocks_used]. *)

Record inventory := mkInventory {
  red_blocks_used : list bool;
  blue_blocks_used : list bool }.

(** [reset_game()] resets both lists to five [False]. *)
Definition fresh_inventory : inventory :=
  mkInventory (repeat false 5) (repeat false 5).

Definition blocks_used (is_robot_block : bool) (inv : inventory) : list bool :=
  if is_robot_block then red_blocks_used inv else blue_blocks_used inv.

Definition set_blocks_used (is_robot_block : bool) (inv : inventory) (l : list bool)
  : inventory :=
  if is_robot_block then mkInventory l (blue_blocks_used inv)
  else mkInventory (red_blocks_used inv) l.

(** [for i, used in enumerate(blocks_used): if not used:
       blocks_used[i] = True; return i + 1]; then [return None]. *)
Fixpoint scan_blocks (i : nat) (used : list bool) : option nat * list bool :=
  match used with
  | [] => (None, [])
  | u :: rest =>
      if negb u then (Some (i + 1)%nat, true :: rest)
      else let '(r, rest') := scan_blocks (S i) rest in (r, u :: rest')
  end.

Definition get_next_available_block (is_robot_block : bool) (inv : inventory)
  : option nat * inventory :=
  let '(r, l) := scan_blocks 0 (blocks_used is_robot_block inv) in
  (r, set_blocks_used is_robot_block inv l).

(** [n] successive calls, with the list of their results. *)
Fixpoint allocate_many (is_robot_block : bool) (n : nat) (inv : inventory)
  : list (option nat) * inventory :=
  match n with
  | O => ([], inv)
  | S n' =>
      let '(r, inv1) := get_next_available_block is_robot_block inv in
      let '(rs, inv2) := allocate_many is_robot_block n' inv1 in
      (r :: rs, inv2)
  end.

(** ** Servo motion.

    Angles are exact rationals ([Q]), not floats.  Reading
    [kit.servo[n].angle] has three outcomes: the property raises (caught by
    the bare [except]), it returns [None] (the servo kit reports a servo
    whose pulse is off as [None]), or it returns an angle. *)

Inductive angle_read := ReadRaises | ReadNone | ReadAngle (q : Q).

(** The servo kit: what reading each channel gives, and the log of every
    [kit.servo[n].angle = a] assignment, oldest first.  After an
    assignment the channel reads back the assigned angle. *)
Record kit := mkKit {
  kit_read : nat -> angle_read;
  kit_log : list (nat * Q) }.

Definition set_angle (k : kit) (servo : nat) (a : Q) : kit :=
  mkKit (fun n => if Nat.eqb n servo then ReadAngle a else kit_read k n)
        (kit_log k ++ [(servo, a)]).

Definition SERVO_BASE := 0%nat.
Definition SERVO_SHOULDER := 1%nat.
Definition SERVO_ELBOW := 2%nat.
Definition SERVO_WRIST_PITCH := 3%nat.
Definition SERVO_WRIST_ROLL := 4%nat.
Definition SERVO_CLAW := 5%nat.

(** [steps=10], the default every caller uses. *)
Definition default_steps := 10%nat.

(** [current_angle] after the [try]: the target when reading raises;
    [None] flows on and [target_angle - current_angle] raises [TypeError]
    (modelled as [None]). *)
Definition current_of (a : angle_read) (target : Q) : option Q :=
  match a with
  | ReadRaises => Some target
  | ReadNone => None
  | ReadAngle q => Some q
  end.

Fixpoint command_steps (k : kit) (servo : nat) (current step_size : Q)
    (steps : list nat) : kit :=
  match steps with
  | [] => k
  | step :: rest =>
      let angle := (current + step_size * inject_Z (Z.of_nat (step + 1)))%Q in
      command_steps (set_angle k servo angle) servo current step_size rest
  end.

(** [move_servo_smoothly(servo_num, target_angle)]; [None] is the
    [TypeError] raised when the servo reads back as [None]. *)
Definition move_servo_smoothly (k : kit) (servo : nat) (target : Q) : option kit :=
  match current_of (kit_read k servo) target with
  | None => None
  | Some current =>
      let step_size := ((target - current) / inject_Z (Z.of_nat default_steps))%Q in
      Some (command_steps k servo current step_size (seq 0 default_steps))
  end.

(** A pose: the five keys every position dictionary of the source has. *)
Record pose := mkPose {
  base : Q; shoulder : Q; elbow : Q; wrist_pitch : Q; wrist_roll : Q }.

Definition home_position : pose := mkPose 120%Q 45%Q 90%Q 0%Q 90%Q.

Definition obind {A B} (o : option A) (f : A -> option B) : option B :=
  match o with Some a => f a | None => None end.

Definition move_arm_to_position (k : kit) (position : pose) (smooth : bool)
  : option kit :=
  if smooth then
    obind (move_servo_smoothly k SERVO_BASE (base position)) (fun k =>
    obind (move_servo_smoothly k SERVO_SHOULDER (shoulder position)) (fun k =>
    obind (move_servo_smoothly k SERVO_ELBOW (elbow position)) (fun k =>
    obind (move_servo_smoothly k SERVO_WRIST_PITCH (wrist_pitch position)) (fun k =>
    move_servo_smoothly k SERVO_WRIST_ROLL (wrist_roll position)))))
  else
    let k := set_angle k SERVO_BASE (base position) in
    let k := set_angle k SERVO_SHOULDER (shoulder position) in
    let k := set_angle k SERVO_ELBOW (elbow position) in
    let k := set_angle k SERVO_WRIST_PITCH (wrist_pitch position) in
    Some (set_angle k SERVO_WRIST_ROLL (wrist_roll position)).

(** The angle last assigned to [servo] in a command log. *)
Definition last_command (log : list (nat * Q)) (servo : nat) : option Q :=
  fold_left (fun acc '(n, a) => if Nat.eqb n servo then Some a else acc) log None.




(** [open_claw()], [close_claw()] *)
Definition open_claw (k : kit) : option kit := move_servo_smoothly k SERVO_CLAW 0.
Definition close_claw (k : kit) : option kit := move_servo_smoothly k SERVO_CLAW 90.




(** Servo [n] reads back an angle equal to [t]. *)
Definition reads_about (k : kit) (n : nat) (t : Q) : Prop :=
  exists a, kit_read k n = ReadAngle a /\ (a == t)%Q.

(** The arm part of [move_to_home()]. *)
Definition move_to_home_motion (k : kit) : option kit :=
  move_arm_to_position k home_position true.

(** [calibrate_servos()] *)
Definition calibrate_servos (k : kit) : option kit :=
  obind (move_servo_smoothly k SERVO_BASE 0) (fun k =>
  obind (move_servo_smoothly k SERVO_BASE 180) (fun k =>
  obind (move_servo_smoothly k SERVO_BASE 90) (fun k =>
  obind (move_servo_smoothly k SERVO_SHOULDER 45) (fun k =>
  obind (move_servo_smoothly k SERVO_SHOULDER 90) (fun k =>
  obind (move_servo_smoothly k SERVO_ELBOW 45) (fun k =>
  obind (move_servo_smoothly k SERVO_ELBOW 90) (fun k =>
  obind (move_servo_smoothly k SERVO_WRIST_PITCH 0) (fun k =>
  obind (move_servo_smoothly k SERVO_WRIST_PITCH 45) (fun k =>
  obind (move_servo_smoothly k SERVO_WRIST_ROLL 0) (fun k =>
  obind (move_servo_smoothly k SERVO_WRIST_ROLL 90) (fun k =>
  obind (open_claw k) (fun k =>
  obind (close_claw k) (fun k =>
  move_to_home_motion k))))))))))))).



(** ** The game loop ([wait_for_player_move], [run_game]).

    Global state of the script: [board], the two [*_blocks_used] lists,
    and what the environment contributes: the [n]-th call of
    [analyze_board_state] (camera capture plus vision API) yields
    [percept n], [None] when capture or analysis fails; the [n]-th call of
    [get_robot_move] shuffles to [shuffle_corners n] and [shuffle_edges n];
    the wait loop of [wait_for_player_move] runs [polls_before_timeout]
    iterations before [time.time() - start_time < timeout] fails; the
    answer to ["Continue anyway?"] is [continue_anyway].  The arm
    sequences are recorded as events, one per high-level call. *)

Inductive event :=
  | EvMoveHome                       (* move_to_home() *)
  | EvChooseMove (m : option coord)  (* get_robot_move() and its result *)
  | EvPick (block_num : nat)         (* pick_block: arm sequence at red/blue_storage[block_num] *)
  | EvPlace (r c : idx).             (* place_block(row, col): arm sequence *)

Record state := mkState {
  st_board : board;
  st_inv : inventory;
  st_polls : nat;
  st_shuffles : nat;
  st_trace : list event }.

Record env := mkEnv {
  percept : nat -> option board;
  shuffle_corners : nat -> list coord;
  shuffle_edges : nat -> list coord;
  polls_before_timeout : nat;
  continue_anyway : bool }.

(** [Crash]: an uncaught Python exception; [OutOfFuel]: the game loop
    ran longer than the fuel given to the embedding. *)
Inductive outcome (A : Type) :=
  | Ok (a : A) (s : state)
  | Crash (s : state)
  | OutOfFuel (s : state).
Arguments Ok {A}.
Arguments Crash {A}.
Arguments OutOfFuel {A}.

Definition M (A : Type) := env -> state -> outcome A.

Definition ret {A} (a : A) : M A := fun _ s => Ok a s.

Definition bind {A B} (m : M A) (f : A -> M B) : M B :=
  fun e s =>
    match m e s with
    | Ok a s' => f a e s'
    | Crash s' => Crash s'
    | OutOfFuel s' => OutOfFuel s'
    end.

Notation "x <- m ;; k" := (bind m (fun x => k))
  (at level 61, m at next level, right associativity).
Notation "m ;;; k" := (bind m (fun _ => k))
  (at level 61, right associativity).

Definition crash {A} : M A := fun _ s => Crash s.
Definition out_of_fuel {A} : M A := fun _ s => OutOfFuel s.

Definition get_board : M board := fun _ s => Ok (st_board s) s.

Definition put_board (b : board) : M unit := fun _ s =>
  Ok tt (mkState b (st_inv s) (st_polls s) (st_shuffles s) (st_trace s)).

Definition emit (ev : event) : M unit := fun _ s =>
  Ok tt (mkState (st_board s) (st_inv s) (st_polls s) (st_shuffles s)
                 (st_trace s ++ [ev])).

(** [reset_game()] *)
Definition reset_game : M unit := fun _ s =>
  Ok tt (mkState empty_board fresh_inventory (st_polls s) (st_shuffles s) (st_trace s)).

(** [move_to_home()] *)
Definition move_to_home : M unit := emit EvMoveHome.

(** [analyze_board_state()]: on success the global [board] becomes the
    detected board. *)
Definition analyze_board_state : M bool := fun e s =>
  let n := st_polls s in
  match percept e n with
  | Some b => Ok true (mkState b (st_inv s) (S n) (st_shuffles s) (st_trace s))
  | None => Ok false (mkState (st_board s) (st_inv s) (S n) (st_shuffles s) (st_trace s))
  end.

(** The scan of [detect_player_move]:
    [if prev_board[row, col] == 0 and board[row, col] == 1]. *)
Definition find_player_move (prev b : board) : option coord :=
  find (fun '(r, c) => (get prev r c =? 0) && (get b r c =? 1)) row_major.

(** [detect_player_move(prev_board)] *)
Definition detect_player_move (prev : board) : M (option coord) :=
  ok <- analyze_board_state ;;
  if ok then (b <- get_board ;; ret (find_player_move prev b)) else ret None.

Fixpoint wait_loop (prev : board) (n : nat) : M (option coord) :=
  match n with
  | O => ret None
  | S n' =>
      mv <- detect_player_move prev ;;
      match mv with
      | Some m => ret (Some m)
      | None => wait_loop prev n'
      end
  end.

(** [wait_for_player_move(prev_board)] *)
Definition wait_for_player_move (prev : board) : M (option coord) :=
  fun e s => wait_loop prev (polls_before_timeout e) e s.

(** [display_board()]: [symbols[board[row, col]]] raises [KeyError] on a
    cell outside [{0, 1, 2}]. *)
Definition board_valid (b : board) : bool :=
  forallb (fun '(r, c) => (0 <=? get b r c) && (get b r c <=? 2)) row_major.

Definition display_board : M unit :=
  b <- get_board ;; if board_valid b then ret tt else crash.

(** [get_robot_move()] on the global board, with this call's shuffles. *)
Definition robot_move : M (option coord) := fun e s =>
  let n := st_shuffles s in
  let '(m, b) := get_robot_move (shuffle_corners e n) (shuffle_edges e n) (st_board s) in
  Ok m (mkState b (st_inv s) (st_polls s) (S n) (st_trace s ++ [EvChooseMove m])).

(** [pick_block(is_robot_block)]; [red_storage] and [blue_storage] have
    the keys 1 to 5. *)
Definition pick_block (is_robot_block : bool) : M bool := fun e s =>
  let '(r, inv) := get_next_available_block is_robot_block (st_inv s) in
  let s1 := mkState (st_board s) inv (st_polls s) (st_shuffles s) (st_trace s) in
  match r with
  | None => Ok false s1
  | Some n =>
      if (1 <=? n)%nat && (n <=? 5)%nat
      then (emit (EvPick n) ;;; ret true) e s1
      else Crash s1
  end.

(** [place_block(row, col)] *)
Definition place_block (r c : idx) : M unit := emit (EvPlace r c).

Inductive turn_result := TurnAbort | TurnOver | TurnContinue.

(** The robot branch of the loop body of [run_game]; [robot_row,
    robot_col = None] raises [TypeError]. *)
Definition robot_turn : M turn_result :=
  mv <- robot_move ;;
  match mv with
  | None => crash
  | Some (r, c) =>
      ok <- pick_block true ;;
      if ok then
        place_block r c ;;;
        move_to_home ;;;
        b <- get_board ;;
        put_board (set b r c 2) ;;;
        display_board ;;;
        b' <- get_board ;;
        if check_win b' 2 then ret TurnOver
        else if check_draw b' then ret TurnOver
        else ret TurnContinue
      else ret TurnOver
  end.

(** One iteration of [while not game_over:]; [TurnAbort] is the
    [return False] after a timeout, [TurnOver] sets [game_over]. *)
Definition turn : M turn_result :=
  prev <- get_board ;;
  mv <- wait_for_player_move prev ;;
  match mv with
  | None => ret TurnAbort
  | Some _ =>
      display_board ;;;
      b <- get_board ;;
      if check_win b 1 then ret TurnOver
      else if check_draw b then ret TurnOver
      else robot_turn
  end.

(** [while not game_over: ...]; after the loop, [return True]. *)
Fixpoint game_loop (fuel : nat) : M bool :=
  match fuel with
  | O => out_of_fuel
  | S f =>
      r <- turn ;;
      match r with
      | TurnAbort => ret false
      | TurnOver => ret true
      | TurnContinue => game_loop f
      end
  end.

Definition board_sum (b : board) : Z :=
  fold_right Z.add 0 (map (fun '(r, c) => get b r c) row_major).

(** [run_game()] *)
Definition run_game (fuel : nat) : M bool :=
  reset_game ;;;
  move_to_home ;;;
  ok <- analyze_board_state ;;
  if negb ok then ret false else
  b <- get_board ;;
  go <- (if board_sum b >? 0 then
           display_board ;;; (fun e s => Ok (continue_anyway e) s)
         else ret true) ;;
  if go then game_loop fuel else ret false.

Definition start_state : state := mkState empty_board fresh_inventory 0 0 [].

(** The state an outcome ends in, whether it returned, raised or ran out
    of fuel. *)
Definition outcome_state {A} (o : outcome A) : state :=
  match o with Ok _ s => s | Crash s => s | OutOfFuel s => s end.

(** [m] keeps [P]: from a state satisfying [P], whatever [m] does, it ends
    in a state satisfying [P]. *)
Definition keeps {A} (P : state -> Prop) (m : M A) : Prop :=
  forall e s, P s -> P (outcome_state (m e s)).

Definition is_pick (ev : event) : bool :=
  match ev with EvPick _ => true | _ => false end.

(** The number of [pick_block] arm sequences in a trace. *)
Definition count_picks (tr : list event) : nat := length (filter is_pick tr).

(** The number of used slots of a [*_blocks_used] list. *)
Definition count_true (l : list bool) : nat := length (filter (fun u => u) l).

(** ** Definitions that follow the spec's words *)

(** The 3 rows, 3 columns and 2 diagonals. *)
Definition win_lines : list (list coord) :=
  [ [(I0, I0); (I0, I1); (I0, I2)]; [(I1, I0); (I1, I1); (I1, I2)];
    [(I2, I0); (I2, I1); (I2, I2)];
    [(I0, I0); (I1, I0); (I2, I0)]; [(I0, I1); (I1, I1); (I2, I1)];
    [(I0, I2); (I1, I2); (I2, I2)];
    [(I0, I0); (I1, I1); (I2, I2)]; [(I0, I2); (I1, I1); (I2, I0)] ].

(** The first cell in row-major order that is empty and wins for [mark]
    once [mark] is placed on it. *)
Definition first_winning_cell (mark : Z) (b : board) : option coord :=
  find (fun '(r, c) => (get b r c =? 0) && check_win (set b r c mark) mark) row_major.

(** No cell turned from empty in [prev] to player in the perceived board. *)
Definition no_player_change (prev : board) (o : option board) : Prop :=
  match o with
  | None => True
  | Some b => forall r c, ~ (get prev r c = 0 /\ get b r c = 1)
  end.

(** ** Scenario boards, environments and proof tactics *)

Definition c1_board := of_rows (1, 1, 0) (2, 2, 0) (0, 0, 0).
Definition c4_board := of_rows (2, 0, 0) (0, 2, 0) (0, 0, 0).
Definition full_won_board := of_rows (1, 1, 1) (2, 2, 1) (2, 1, 2).

Definition pose_targets (p : pose) : list (nat * Q) :=
  [(SERVO_BASE, base p); (SERVO_SHOULDER, shoulder p); (SERVO_ELBOW, elbow p);
   (SERVO_WRIST_PITCH, wrist_pitch p); (SERVO_WRIST_ROLL, wrist_roll p)].

Ltac unfold_servos :=
  unfold SERVO_BASE, SERVO_SHOULDER, SERVO_ELBOW, SERVO_WRIST_PITCH, SERVO_WRIST_ROLL.


Definition c7_env : env :=
  mkEnv (fun n => match n with
                  | 0%nat => None
                  | _ => Some (of_rows (2, 0, 0) (0, 0, 0) (0, 0, 0))
                  end)
        (fun _ => corners0) (fun _ => edges0) 3 true.

Definition c7_state : state := mkState empty_board fresh_inventory 0 0 [EvMoveHome].

Definition c10_inv : inventory := mkInventory (repeat true 5) (repeat false 5).
Definition c10_player_board : board := of_rows (1, 0, 0) (0, 0, 0) (0, 0, 0).

Definition c10_env : env :=
  mkEnv (fun _ => Some c10_player_board) (fun _ => corners0) (fun _ => edges0) 3 true.

Definition c10_state : state := mkState empty_board c10_inv 0 0 [].

(** ** Board lemmas *)

Lemma set_get (b : board) r c : set b r c (get b r c) = b.
Proof. destruct b as [[] [] []], r, c; reflexivity. Qed.

Lemma set_set (b : board) r c v w : set (set b r c v) r c w = set b r c w.
Proof. destruct b as [[] [] []], r, c; reflexivity. Qed.

Lemma get_set_same (b : board) r c v : get (set b r c v) r c = v.
Proof. destruct b as [[] [] []], r, c; reflexivity. Qed.

Lemma in_row_major r c : In (r, c) row_major.
Proof. destruct r, c; simpl; tauto. Qed.

(** The trial loop restores every cell it tries. *)
Lemma try_cells_board mark cells b : snd (try_cells mark cells b) = b.
Proof.
  revert b; induction cells as [|[r c] rest IH]; intro b; simpl; [reflexivity|].
  destruct (Z.eqb_spec (get b r c) 0) as [H0|H0].
  - rewrite set_set.
    replace (set b r c 0) with b by (rewrite <- H0; symmetry; apply set_get).
    destruct (check_win (set b r c mark) mark); simpl; [reflexivity|apply IH].
  - apply IH.
Qed.

(** The trial loop returns the first empty cell that wins for [mark]. *)
Lemma try_cells_find mark cells b :
  fst (try_cells mark cells b)
  = find (fun '(r, c) => (get b r c =? 0) && check_win (set b r c mark) mark) cells.
Proof.
  revert b; induction cells as [|[r c] rest IH]; intro b; simpl; [reflexivity|].
  destruct (Z.eqb_spec (get b r c) 0) as [H0|H0]; simpl.
  - rewrite set_set.
    replace (set b r c 0) with b by (rewrite <- H0; symmetry; apply set_get).
    destruct (check_win (set b r c mark) mark); simpl; [reflexivity|apply IH].
  - apply IH.
Qed.

Lemma try_cells_eq mark cells b :
  try_cells mark cells b
  = (find (fun '(r, c) => (get b r c =? 0) && check_win (set b r c mark) mark) cells, b).
Proof.
  pose proof (try_cells_board mark cells b) as Hb.
  pose proof (try_cells_find mark cells b) as Hf.
  destruct (try_cells mark cells b) as [o b0]; simpl in *.
  rewrite Hb, Hf. reflexivity.
Qed.

Lemma find_cell_empty mark b r c :
  first_winning_cell mark b = Some (r, c) -> get b r c = 0.
Proof.
  intro H; apply find_some in H; destruct H as [_ H].
  apply andb_true_iff in H; destruct H as [H _]; now apply Z.eqb_eq.
Qed.

Lemma first_free_some cells b r c : first_free cells b = Some (r, c) -> get b r c = 0.
Proof.
  induction cells as [|[r' c'] rest IH]; simpl; [discriminate|].
  destruct (Z.eqb_spec (get b r' c') 0); [|exact IH].
  intro H; injection H as <- <-; assumption.
Qed.

Lemma first_free_none cells b :
  first_free cells b = None -> forall r c, In (r, c) cells -> get b r c <> 0.
Proof.
  induction cells as [|[r' c'] rest IH]; simpl; [tauto|].
  destruct (Z.eqb_spec (get b r' c') 0); [discriminate|].
  intros H r c [E|Hin]; [injection E as <- <-; assumption|].
  exact (IH H r c Hin).
Qed.

(** [get_robot_move] as the two [find]s and the fallback tiers on an
    unchanged board. *)
Lemma get_robot_move_eq corners edges b :
  get_robot_move corners edges b
  = (match first_winning_cell 2 b with
     | Some m => Some m
     | None =>
         match first_winning_cell 1 b with
         | Some m => Some m
         | None =>
             if get b I1 I1 =? 0 then Some (I1, I1)
             else match first_free corners b with
                  | Some m => Some m
                  | None => first_free edges b
                  end
         end
     end, b).
Proof.
  unfold get_robot_move.
  rewrite try_cells_eq; fold (first_winning_cell 2 b).
  destruct (first_winning_cell 2 b); [reflexivity|].
  rewrite try_cells_eq; fold (first_winning_cell 1 b).
  destruct (first_winning_cell 1 b); [reflexivity|].
  destruct (get b I1 I1 =? 0); [reflexivity|].
  destruct (first_free corners b); reflexivity.
Qed.

(** Every returned move is an empty cell, and there is one exactly when
    the board has an empty cell (the shuffles being permutations). *)
Lemma get_robot_move_cases corners edges b :
  Permutation corners corners0 -> Permutation edges edges0 ->
  (forall r c, fst (get_robot_move corners edges b) = Some (r, c) -> get b r c = 0)
  /\ (fst (get_robot_move corners edges b) = None <-> forall r c, get b r c <> 0).
Proof.
  intros Hc He; rewrite get_robot_move_eq; cbn [fst].
  destruct (first_winning_cell 2 b) as [[r1 c1]|] eqn:E1.
  { apply find_cell_empty in E1.
    split; [intros r c H; injection H as <- <-; exact E1|].
    split; [discriminate|intro H; exfalso; exact (H _ _ E1)]. }
  destruct (first_winning_cell 1 b) as [[r2 c2]|] eqn:E2.
  { apply find_cell_empty in E2.
    split; [intros r c H; injection H as <- <-; exact E2|].
    split; [discriminate|intro H; exfalso; exact (H _ _ E2)]. }
  destruct (Z.eqb_spec (get b I1 I1) 0) as [Hm|Hm].
  { split; [intros r c H; injection H as <- <-; exact Hm|].
    split; [discriminate|intro H; exfalso; exact (H _ _ Hm)]. }
  destruct (first_free corners b) as [[r3 c3]|] eqn:E3.
  { apply first_free_some in E3.
    split; [intros r c H; injection H as <- <-; exact E3|].
    split; [discriminate|intro H; exfalso; exact (H _ _ E3)]. }
  destruct (first_free edges b) as [[r4 c4]|] eqn:E4.
  { apply first_free_some in E4.
    split; [intros r c H; injection H as <- <-; exact E4|].
    split; [discriminate|intro H; exfalso; exact (H _ _ E4)]. }
  split; [discriminate|].
  split; [|reflexivity]. intros _ r c.
  pose proof (first_free_none _ _ E3) as N3.
  pose proof (first_free_none _ _ E4) as N4.
  assert (Ic : forall r c, In (r, c) corners0 -> In (r, c) corners)
    by (intros; eapply Permutation_in; [apply Permutation_sym, Hc|assumption]).
  assert (Ie : forall r c, In (r, c) edges0 -> In (r, c) edges)
    by (intros; eapply Permutation_in; [apply Permutation_sym, He|assumption]).
  destruct r, c;
    first [ exact Hm
          | apply N3, Ic; simpl; tauto
          | apply N4, Ie; simpl; tauto ].
Qed.

Lemma check_win_lines b side :
  check_win b side
  = existsb (fun l => forallb (fun '(r, c) => get b r c =? side) l) win_lines.
Proof.
  destruct b as [[a0 a1 a2] [b0 b1 b2] [d0 d1 d2]]; unfold check_win, row_all, col_all; simpl.
  destruct (a0 =? side), (a1 =? side), (a2 =? side),
           (b0 =? side), (b1 =? side), (b2 =? side),
           (d0 =? side), (d1 =? side), (d2 =? side); reflexivity.
Qed.

(** ** Rule-engine claims *)

(** C1 (counterexample): on [[1,1,0],[2,2,0],[0,0,0]] [get_robot_move]
    does not return (0,2). *)
Lemma c1_not_block_cell :
  fst (get_robot_move corners0 edges0 c1_board) = Some (I1, I2)
  /\ Some (I1, I2) <> Some (I0, I2).
Proof. split; [vm_compute; reflexivity|discriminate]. Qed.

(** C1 (amended): on [[1,1,0],[2,2,0],[0,0,0]] [get_robot_move] returns
    (1,2), completing the robot's row 1, whatever the shuffles; the
    player's winning cell (0,2) exists but the win tier comes first. *)
Theorem c1_robot_wins_row1 corners edges :
  fst (get_robot_move corners edges c1_board) = Some (I1, I2)
  /\ first_winning_cell 1 c1_board = Some (I0, I2).
Proof. rewrite get_robot_move_eq. split; reflexivity. Qed.

(** C2: [get_robot_move] hands back the board it was given: every trial
    placement is reset to 0. *)
Theorem get_robot_move_board_unchanged corners edges b :
  snd (get_robot_move corners edges b) = b.
Proof. rewrite get_robot_move_eq. reflexivity. Qed.

(** C3: for the player and the robot, [check_win] holds iff one of the
    3 rows, 3 columns or 2 diagonals is all [side]; it is false on the
    empty board. *)
Theorem check_win_spec b side (Hside : side = 1 \/ side = 2) :
  (check_win b side = true <->
   exists l, In l win_lines /\ forall r c, In (r, c) l -> get b r c = side)
  /\ check_win empty_board side = false.
Proof.
  split.
  - rewrite check_win_lines, existsb_exists.
    split; intros [l [Hin Hall]]; exists l; split; auto.
    + intros r c Hrc. apply Z.eqb_eq.
      rewrite forallb_forall in Hall. exact (Hall (r, c) Hrc).
    + apply forallb_forall. intros [r c] Hrc. apply Z.eqb_eq. auto.
  - destruct Hside; subst; reflexivity.
Qed.

(** C4: when some empty cell wins for the robot, [get_robot_move] returns
    the first such cell in row-major order; on [[2,0,0],[0,2,0],[0,0,0]]
    that is (2,2). *)
Theorem get_robot_move_takes_win corners edges :
  (forall b m, first_winning_cell 2 b = Some m ->
     fst (get_robot_move corners edges b) = Some m)
  /\ fst (get_robot_move corners edges c4_board) = Some (I2, I2).
Proof.
  split.
  - intros b m Hm. rewrite get_robot_move_eq, Hm. reflexivity.
  - rewrite get_robot_move_eq. reflexivity.
Qed.

(** C5: with shuffles that permute the corners and the edges,
    [get_robot_move] returns only in-range empty cells, returns a cell
    whenever one is empty, and returns [None] only on a full board. *)
Theorem get_robot_move_empty_cell corners edges b
  (Hc : Permutation corners corners0) (He : Permutation edges edges0) :
  (forall r c, fst (get_robot_move corners edges b) = Some (r, c) ->
     (idx_to_nat r <= 2)%nat /\ (idx_to_nat c <= 2)%nat /\ get b r c = 0)
  /\ ((exists r c, get b r c = 0) ->
      exists r c, fst (get_robot_move corners edges b) = Some (r, c))
  /\ (fst (get_robot_move corners edges b) = None -> forall r c, get b r c <> 0).
Proof.
  destruct (get_robot_move_cases corners edges b Hc He) as [Hs Hn].
  split; [|split].
  - intros r c H. repeat split; [destruct r; simpl; lia|destruct c; simpl; lia|].
    exact (Hs r c H).
  - intros [r [c Hrc]].
    destruct (fst (get_robot_move corners edges b)) as [[r' c']|] eqn:E.
    + exists r', c'; reflexivity.
    + exfalso. exact (proj1 Hn eq_refl r c Hrc).
  - apply Hn.
Qed.

Lemma get_robot_move_empty_cell_witness :
  Permutation corners0 corners0 /\ Permutation edges0 edges0 /\
  fst (get_robot_move corners0 edges0 c4_board) = Some (I2, I2) /\
  get c4_board I2 I2 = 0.
Proof.
  split; [apply Permutation_refl|split; [apply Permutation_refl|]].
  split; [reflexivity|].
  exact (proj2 (proj2 (proj1 (get_robot_move_empty_cell corners0 edges0 c4_board
          (Permutation_refl _) (Permutation_refl _)) I2 I2 eq_refl))).
Defined.

Lemma check_win_spec_witness :
  (1 = 1 \/ 1 = 2) /\ check_win empty_board 1 = false.
Proof.
  split; [left; reflexivity|].
  exact (proj2 (check_win_spec c4_board 1 (or_introl eq_refl))).
Defined.

(** C8: [check_draw] holds iff no cell is 0; it does not look for a
    winner, so a full board with a winning row is a draw for it. *)
Theorem check_draw_spec b :
  (check_draw b = true <-> forall r c, get b r c <> 0)
  /\ (check_draw full_won_board = true /\ check_win full_won_board 1 = true).
Proof.
  split; [|split; reflexivity].
  unfold check_draw. rewrite negb_true_iff. split.
  - intros H r c Hrc.
    assert (existsb (fun r => existsb (fun c => get b r c =? 0) range3) range3 = true)
      as Hex by (apply existsb_exists; exists r; split; [destruct r; simpl; tauto|];
                 apply existsb_exists; exists c; split;
                 [destruct c; simpl; tauto|apply Z.eqb_eq; exact Hrc]).
    congruence.
  - intro H. apply not_true_is_false. intro Hex.
    apply existsb_exists in Hex; destruct Hex as [r [_ Hr]].
    apply existsb_exists in Hr; destruct Hr as [c [_ Hc]].
    apply Z.eqb_eq in Hc. exact (H r c Hc).
Qed.

(** ** Inventory lemmas *)

Lemma blocks_used_set is_robot_block inv l :
  blocks_used is_robot_block (set_blocks_used is_robot_block inv l) = l.
Proof. destruct is_robot_block; reflexivity. Qed.

Lemma set_blocks_used_twice is_robot_block inv l l' :
  set_blocks_used is_robot_block (set_blocks_used is_robot_block inv l) l'
  = set_blocks_used is_robot_block inv l'.
Proof. destruct is_robot_block; reflexivity. Qed.

Lemma scan_blocks_used_prefix k i l :
  scan_blocks i (repeat true k ++ l)
  = let '(r, l') := scan_blocks (i + k) l in (r, repeat true k ++ l').
Proof.
  revert i; induction k as [|k IH]; intro i; simpl.
  - rewrite Nat.add_0_r. destruct (scan_blocks i l); reflexivity.
  - rewrite IH. replace (S i + k)%nat with (i + S k)%nat by lia.
    destruct (scan_blocks (i + S k) l); reflexivity.
Qed.

Lemma repeat_true_snoc k l : repeat true k ++ true :: l = repeat true (S k) ++ l.
Proof. induction k as [|k IH]; simpl; [reflexivity|now rewrite IH]. Qed.

Lemma allocate_many_step is_robot_block n inv :
  allocate_many is_robot_block (S n) inv
  = let '(r, inv1) := get_next_available_block is_robot_block inv in
    let '(rs, inv2) := allocate_many is_robot_block n inv1 in
    (r :: rs, inv2).
Proof. reflexivity. Qed.

Lemma allocate_many_from k m is_robot_block inv :
  blocks_used is_robot_block inv = repeat true k ++ repeat false m ->
  allocate_many is_robot_block (S m) inv
  = (map Some (seq (k + 1) m) ++ [None],
     set_blocks_used is_robot_block inv (repeat true (k + m))).
Proof.
  revert k inv; induction m as [|m IH]; intros k inv H.
  - simpl allocate_many. unfold get_next_available_block.
    rewrite H, scan_blocks_used_prefix. simpl.
    rewrite app_nil_r, Nat.add_0_r. reflexivity.
  - assert (G : get_next_available_block is_robot_block inv
                 = (Some (k + 1)%nat,
                    set_blocks_used is_robot_block inv (repeat true (S k) ++ repeat false m))).
    { unfold get_next_available_block. rewrite H, scan_blocks_used_prefix.
      change (repeat false (S m)) with (false :: repeat false m).
      cbn [scan_blocks negb Nat.add]. cbv beta iota zeta. rewrite repeat_true_snoc.
      reflexivity. }
    rewrite allocate_many_step, G. cbv beta iota zeta.
    rewrite (IH (S k)).
    + rewrite set_blocks_used_twice.
      replace (S k + m)%nat with (k + S m)%nat by lia.
      replace (S k + 1)%nat with (S (k + 1)) by lia. reflexivity.
    + rewrite blocks_used_set. reflexivity.
Qed.

Lemma scan_blocks_keeps_used i l :
  forall j, nth_error l j = Some true ->
  nth_error (snd (scan_blocks i l)) j = Some true.
Proof.
  revert i; induction l as [|u rest IH]; intros i j Hj; [exact Hj|].
  simpl. destruct u; simpl.
  - specialize (IH (S i)).
    destruct (scan_blocks (S i) rest) as [r rest'] eqn:E; simpl.
    destruct j as [|j]; [exact Hj|].
    simpl in *. exact (IH j Hj).
  - destruct j; simpl in *; [reflexivity|exact Hj].
Qed.

(** C6: from a fresh inventory of [N] slots, [N + 1] calls of
    [get_next_available_block] return the slots 1 .. N in scan order and
    then [None], leaving all [N] slots used; no call ever turns a used
    slot back to unused. *)
Theorem allocate_fresh_inventory is_robot_block N inv
  (Hfresh : blocks_used is_robot_block inv = repeat false N) :
  allocate_many is_robot_block (S N) inv
    = (map Some (seq 1 N) ++ [None],
       set_blocks_used is_robot_block inv (repeat true N))
  /\ (forall inv' j,
        nth_error (blocks_used is_robot_block inv') j = Some true ->
        nth_error (blocks_used is_robot_block
                     (snd (get_next_available_block is_robot_block inv'))) j
        = Some true).
Proof.
  split.
  - apply (allocate_many_from 0 N). exact Hfresh.
  - intros inv' j Hj. unfold get_next_available_block.
    pose proof (scan_blocks_keeps_used 0 _ j Hj) as H.
    destruct (scan_blocks 0 (blocks_used is_robot_block inv')) as [r l].
    simpl. rewrite blocks_used_set. exact H.
Qed.

Lemma allocate_fresh_inventory_witness :
  blocks_used true fresh_inventory = repeat false 5 /\
  allocate_many true 6 fresh_inventory
    = ([Some 1; Some 2; Some 3; Some 4; Some 5; None]%nat,
       set_blocks_used true fresh_inventory (repeat true 5)).
Proof.
  split; [reflexivity|].
  exact (proj1 (allocate_fresh_inventory true 5 fresh_inventory eq_refl)).
Defined.

(** ** Motion lemmas *)

Lemma last_command_fold log servo acc :
  fold_left (fun acc '(n, a) => if Nat.eqb n servo then Some a else acc) log acc
  = match last_command log servo with Some a => Some a | None => acc end.
Proof.
  unfold last_command. revert acc.
  induction log as [|[n a] rest IH]; intro acc; simpl; [reflexivity|].
  rewrite (IH (if Nat.eqb n servo then Some a else acc)),
          (IH (if Nat.eqb n servo then Some a else None)).
  destruct (fold_left _ rest None); [reflexivity|].
  destruct (Nat.eqb n servo); reflexivity.
Qed.

Lemma last_command_app l l' servo :
  last_command (l ++ l') servo
  = match last_command l' servo with
    | Some a => Some a
    | None => last_command l servo
    end.
Proof. unfold last_command at 1. rewrite fold_left_app, last_command_fold. reflexivity. Qed.

Lemma last_command_other l servo :
  Forall (fun e => fst e <> servo) l -> last_command l servo = None.
Proof.
  intro H. induction H as [|[n a] rest Hn _ IH]; [reflexivity|].
  change ((n, a) :: rest) with ([(n, a)] ++ rest).
  rewrite last_command_app, IH. simpl in *.
  unfold last_command; simpl. apply Nat.eqb_neq in Hn. rewrite Hn. reflexivity.
Qed.

Lemma set_angle_log k servo a : kit_log (set_angle k servo a) = kit_log k ++ [(servo, a)].
Proof. reflexivity. Qed.

Lemma command_steps_log k servo cur ss steps :
  kit_log (command_steps k servo cur ss steps)
  = kit_log k ++ map (fun step => (servo, (cur + ss * inject_Z (Z.of_nat (step + 1)))%Q)) steps.
Proof.
  revert k; induction steps as [|st rest IH]; intro k; simpl.
  - rewrite app_nil_r; reflexivity.
  - rewrite IH, set_angle_log, <- app_assoc. reflexivity.
Qed.

Lemma command_steps_read k servo cur ss steps n :
  n <> servo -> kit_read (command_steps k servo cur ss steps) n = kit_read k n.
Proof.
  intro Hn; revert k; induction steps as [|st rest IH]; intro k; simpl; [reflexivity|].
  rewrite IH. simpl. apply Nat.eqb_neq in Hn. rewrite Hn. reflexivity.
Qed.

(** What one call of [move_servo_smoothly] does when the servo does not
    read back as [None]: it appends commands to [servo] only, the last one
    being the target in exact arithmetic. *)
Lemma move_servo_smoothly_spec k servo t :
  kit_read k servo <> ReadNone ->
  exists k' l a,
    move_servo_smoothly k servo t = Some k'
    /\ kit_log k' = kit_log k ++ l
    /\ Forall (fun e => fst e = servo) l
    /\ last_command l servo = Some a /\ (a == t)%Q
    /\ (forall n, n <> servo -> kit_read k' n = kit_read k n).
Proof.
  intro Hr. unfold move_servo_smoothly.
  assert (Hc : exists cur, current_of (kit_read k servo) t = Some cur)
    by (destruct (kit_read k servo); [exists t|contradiction|exists q]; reflexivity).
  destruct Hc as [cur Hc]. rewrite Hc.
  set (ss := ((t - cur) / inject_Z (Z.of_nat default_steps))%Q).
  eexists _, _, _. split; [reflexivity|]. split; [apply command_steps_log|].
  split.
  { apply Forall_forall. intros e He. apply in_map_iff in He.
    destruct He as [x [<- _]]. reflexivity. }
  split.
  { simpl seq. simpl map. unfold last_command; simpl.
    rewrite Nat.eqb_refl. reflexivity. }
  split.
  { unfold ss, default_steps. simpl. field. }
  intros n Hn. apply command_steps_read, Hn.
Qed.


Ltac other l F :=
  rewrite (last_command_other l)
    by (eapply Forall_impl; [|exact F]; intros [n a] Hn; simpl in *; subst n;
        unfold_servos; discriminate).

(** With every arm servo readable (an angle, or an exception caught by the
    bare [except]), [move_arm_to_position] commands each of the five
    joints, its last command being the pose's target. *)
Lemma move_arm_to_position_targets k p smooth :
  (forall n, (n <= 4)%nat -> kit_read k n <> ReadNone) ->
  exists k', move_arm_to_position k p smooth = Some k'
    /\ Forall (fun '(n, t) => exists a, last_command (kit_log k') n = Some a /\ (a == t)%Q)
              (pose_targets p).
Proof.
  intro Hr. destruct smooth.
  - unfold move_arm_to_position.
    destruct (move_servo_smoothly_spec k SERVO_BASE (base p) (Hr 0%nat ltac:(lia)))
      as [k0 [l0 [a0 [E0 [L0 [F0 [A0 [Q0 R0]]]]]]]].
    rewrite E0; simpl obind.
    assert (H1 : kit_read k0 SERVO_SHOULDER <> ReadNone)
      by (rewrite R0 by discriminate; apply Hr; unfold_servos; lia).
    destruct (move_servo_smoothly_spec k0 SERVO_SHOULDER (shoulder p) H1)
      as [k1 [l1 [a1 [E1 [L1 [F1 [A1 [Q1 R1]]]]]]]].
    rewrite E1; simpl obind.
    assert (H2 : kit_read k1 SERVO_ELBOW <> ReadNone)
      by (rewrite R1, R0 by discriminate; apply Hr; unfold_servos; lia).
    destruct (move_servo_smoothly_spec k1 SERVO_ELBOW (elbow p) H2)
      as [k2 [l2 [a2 [E2 [L2 [F2 [A2 [Q2 R2]]]]]]]].
    rewrite E2; simpl obind.
    assert (H3 : kit_read k2 SERVO_WRIST_PITCH <> ReadNone)
      by (rewrite R2, R1, R0 by discriminate; apply Hr; unfold_servos; lia).
    destruct (move_servo_smoothly_spec k2 SERVO_WRIST_PITCH (wrist_pitch p) H3)
      as [k3 [l3 [a3 [E3 [L3 [F3 [A3 [Q3 R3]]]]]]]].
    rewrite E3; simpl obind.
    assert (H4 : kit_read k3 SERVO_WRIST_ROLL <> ReadNone)
      by (rewrite R3, R2, R1, R0 by discriminate; apply Hr; unfold_servos; lia).
    destruct (move_servo_smoothly_spec k3 SERVO_WRIST_ROLL (wrist_roll p) H4)
      as [k4 [l4 [a4 [E4 [L4 [F4 [A4 [Q4 R4]]]]]]]].
    exists k4. split; [exact E4|].
    rewrite L4, L3, L2, L1, L0.
    repeat rewrite <- app_assoc.
    unfold pose_targets.
    repeat constructor.
    + exists a0. rewrite !last_command_app. other l4 F4. other l3 F3. other l2 F2. other l1 F1.
      rewrite A0. auto.
    + exists a1. rewrite !last_command_app. other l4 F4. other l3 F3. other l2 F2.
      rewrite A1. auto.
    + exists a2. rewrite !last_command_app. other l4 F4. other l3 F3.
      rewrite A2. auto.
    + exists a3. rewrite !last_command_app. other l4 F4.
      rewrite A3. auto.
    + exists a4. rewrite !last_command_app. rewrite A4. auto.
  - eexists; split; [reflexivity|].
    unfold pose_targets.
    repeat apply Forall_cons; try apply Forall_nil;
      eexists; (split; [|reflexivity]);
      rewrite !set_angle_log, !last_command_app; unfold_servos;
      unfold last_command at 1 2 3 4 5; simpl; reflexivity.
Qed.

(** C9 (code bug): on a servo that reads back as [None] (no pulse sent to
    it yet), [move_servo_smoothly] evaluates [target_angle - None] and
    raises [TypeError]: [move_arm_to_position(home_position)] commands no
    joint at all.  The sibling [move_servo_smoothly] of src/sorting.py
    maps [None] to 0 instead. *)
Theorem move_arm_unset_servo_raises :
  move_arm_to_position (mkKit (fun _ => ReadNone) []) home_position true = None
  /\ move_servo_smoothly (mkKit (fun _ => ReadNone) []) SERVO_BASE (base home_position) = None.
Proof. split; reflexivity. Qed.

(** ** Game-loop lemmas *)

Lemma find_player_move_none prev b :
  (forall r c, ~ (get prev r c = 0 /\ get b r c = 1)) ->
  find_player_move prev b = None.
Proof.
  intro H.
  destruct (find_player_move prev b) as [[r c]|] eqn:E; [|reflexivity].
  unfold find_player_move in E.
  apply find_some in E. destruct E as [_ E].
  apply andb_true_iff in E. destruct E as [E1 E2].
  apply Z.eqb_eq in E1, E2. exfalso. exact (H r c (conj E1 E2)).
Qed.

(** A wait in which no poll sees a new player mark times out: it
    returns [None] after [n] polls, touching neither the inventory, nor
    the shuffles, nor the arm. *)
Lemma wait_loop_timeout prev n e s :
  (forall k, (k < n)%nat -> no_player_change prev (percept e (st_polls s + k))) ->
  exists s', wait_loop prev n e s = Ok None s'
    /\ st_trace s' = st_trace s /\ st_shuffles s' = st_shuffles s
    /\ st_inv s' = st_inv s.
Proof.
  revert s; induction n as [|n IH]; intros s H.
  - exists s; repeat split.
  - cbn [wait_loop]. unfold bind at 1, detect_player_move, bind at 1, analyze_board_state.
    assert (H0 := H 0%nat ltac:(lia)). rewrite Nat.add_0_r in H0.
    destruct (percept e (st_polls s)) as [b|] eqn:Ep.
    + unfold bind, get_board, ret at 1. simpl in H0 |- *.
      rewrite (find_player_move_none _ _ H0).
      set (s1 := mkState b (st_inv s) (S (st_polls s)) (st_shuffles s) (st_trace s)).
      destruct (IH s1) as [s' [E [T [Sh I]]]].
      { intros k Hk. unfold s1; simpl. rewrite <- Nat.add_succ_r. apply H. lia. }
      exists s'. rewrite E. repeat split; assumption.
    + unfold ret at 1.
      set (s1 := mkState (st_board s) (st_inv s) (S (st_polls s)) (st_shuffles s) (st_trace s)).
      destruct (IH s1) as [s' [E [T [Sh I]]]].
      { intros k Hk. unfold s1; simpl. rewrite <- Nat.add_succ_r. apply H. lia. }
      exists s'. simpl. fold s1. rewrite E. repeat split; assumption.
Qed.

(** C7: when no poll before the timeout shows an empty cell turned into
    a player mark, [wait_for_player_move] returns [None] and the game loop
    returns [False] (the session is aborted) without calling
    [get_robot_move], [pick_block], [place_block] or moving the arm. *)
Theorem timeout_aborts_without_robot_action e s fuel
  (Hnone : forall k, (k < polls_before_timeout e)%nat ->
     no_player_change (st_board s) (percept e (st_polls s + k))) :
  exists s',
    wait_for_player_move (st_board s) e s = Ok None s'
    /\ game_loop (S fuel) e s = Ok false s'
    /\ st_trace s' = st_trace s /\ st_shuffles s' = st_shuffles s
    /\ st_inv s' = st_inv s.
Proof.
  destruct (wait_loop_timeout (st_board s) (polls_before_timeout e) e s Hnone)
    as [s' [E [T [Sh I]]]].
  exists s'. split; [exact E|]. split; [|auto].
  cbv [game_loop turn bind get_board wait_for_player_move ret].
  rewrite E. reflexivity.
Qed.

Lemma timeout_aborts_without_robot_action_witness :
  (forall k, (k < polls_before_timeout c7_env)%nat ->
     no_player_change (st_board c7_state) (percept c7_env (st_polls c7_state + k)))
  /\ exists s',
    wait_for_player_move (st_board c7_state) c7_env c7_state = Ok None s'
    /\ game_loop 1 c7_env c7_state = Ok false s'
    /\ st_trace s' = st_trace c7_state /\ st_shuffles s' = st_shuffles c7_state
    /\ st_inv s' = st_inv c7_state.
Proof.
  assert (H : forall k, (k < polls_before_timeout c7_env)%nat ->
     no_player_change (st_board c7_state) (percept c7_env (st_polls c7_state + k))).
  { intros k Hk. simpl in Hk.
    destruct k as [|[|[|k]]]; [exact I| | |lia];
      intros r c [H0 H1]; destruct r, c; simpl in H1; discriminate. }
  split; [exact H|].
  exact (timeout_aborts_without_robot_action c7_env c7_state 0 H).
Defined.

Lemma check_draw_false_empty b :
  check_draw b = false -> exists r c, get b r c = 0.
Proof.
  unfold check_draw. rewrite negb_false_iff. intro H.
  apply existsb_exists in H; destruct H as [r [_ Hr]].
  apply existsb_exists in Hr; destruct Hr as [c [_ Hc]].
  exists r, c. apply Z.eqb_eq, Hc.
Qed.

Lemma scan_blocks_all_used i l :
  forallb (fun u => u) l = true -> scan_blocks i l = (None, l).
Proof.
  revert i; induction l as [|u rest IH]; intros i H; [reflexivity|].
  simpl in H. apply andb_true_iff in H. destruct H as [Hu Hr]. subst u.
  simpl. rewrite IH by exact Hr. reflexivity.
Qed.

(** The robot branch with no red block left: [get_robot_move] is called
    and returns a cell, [pick_block] fails, nothing is placed and the
    board is not updated. *)
Lemma robot_turn_out_of_blocks e s
  (Hperm : forall n, Permutation (shuffle_corners e n) corners0
                     /\ Permutation (shuffle_edges e n) edges0)
  (Hnodraw : check_draw (st_board s) = false)
  (Hout : forallb (fun u => u) (red_blocks_used (st_inv s)) = true) :
  exists m,
    robot_turn e s
    = Ok TurnOver (mkState (st_board s) (st_inv s) (st_polls s) (S (st_shuffles s))
                           (st_trace s ++ [EvChooseMove (Some m)])).
Proof.
  destruct (Hperm (st_shuffles s)) as [Hc He].
  destruct (get_robot_move_cases _ _ (st_board s) Hc He) as [_ Hn].
  pose proof (get_robot_move_eq (shuffle_corners e (st_shuffles s))
                (shuffle_edges e (st_shuffles s)) (st_board s)) as Eg.
  destruct (get_robot_move (shuffle_corners e (st_shuffles s))
              (shuffle_edges e (st_shuffles s)) (st_board s)) as [mv b'] eqn:Eg'.
  injection Eg as Emv Eb. subst b'.
  destruct mv as [[r c]|].
  2:{ exfalso. destruct (check_draw_false_empty _ Hnodraw) as [r [c Hrc]].
      simpl in Hn. exact (proj1 Hn eq_refl r c Hrc). }
  exists (r, c).
  unfold robot_turn, bind at 1, robot_move. rewrite Eg'. cbv beta iota.
  unfold bind at 1, pick_block, get_next_available_block. simpl st_inv.
  unfold blocks_used. rewrite scan_blocks_all_used by exact Hout.
  destruct s as [b [red blue] polls sh tr]. reflexivity.
Qed.

(** C10 (amended): when the robot's turn comes with no red block left,
    the loop calls [get_robot_move], [pick_block] fails, no block is
    placed, the board stays as perceived after the player's move, and
    [game_over] ends the loop: [run_game] returns [True], as after a win
    or a draw (the timeout abort returns [False]). *)
Theorem out_of_blocks_ends_game e s0 s1 pm fuel
  (Hperm : forall n, Permutation (shuffle_corners e n) corners0
                     /\ Permutation (shuffle_edges e n) edges0)
  (Hwait : wait_for_player_move (st_board s0) e s0 = Ok (Some pm) s1)
  (Hvalid : board_valid (st_board s1) = true)
  (Hnowin : check_win (st_board s1) 1 = false)
  (Hnodraw : check_draw (st_board s1) = false)
  (Hout : forallb (fun u => u) (red_blocks_used (st_inv s1)) = true) :
  exists m s2,
    game_loop (S fuel) e s0 = Ok true s2
    /\ st_board s2 = st_board s1 /\ st_inv s2 = st_inv s1
    /\ st_trace s2 = st_trace s1 ++ [EvChooseMove (Some m)].
Proof.
  destruct (robot_turn_out_of_blocks e s1 Hperm Hnodraw Hout) as [m Hr].
  exists m, (mkState (st_board s1) (st_inv s1) (st_polls s1) (S (st_shuffles s1))
                     (st_trace s1 ++ [EvChooseMove (Some m)])).
  split; [|split; [|split]]; [|reflexivity|reflexivity|reflexivity].
  unfold wait_for_player_move in Hwait.
  cbv [game_loop turn bind get_board wait_for_player_move ret display_board crash].
  rewrite Hwait. rewrite Hvalid. rewrite Hnowin, Hnodraw. rewrite Hr. reflexivity.
Qed.

(** C10 (counterexample): with no red block left, the loop does not end
    the way the aborts do ([return False]): it returns [True]. *)
Lemma out_of_blocks_not_aborted :
  game_loop 1 c10_env c10_state
  = Ok true (mkState c10_player_board c10_inv 1 1 [EvChooseMove (Some (I1, I1))])
  /\ Some true <> Some false.
Proof. split; [vm_compute; reflexivity|discriminate]. Qed.

Lemma out_of_blocks_ends_game_witness :
  wait_for_player_move (st_board c10_state) c10_env c10_state
    = Ok (Some (I0, I0)) (mkState c10_player_board c10_inv 1 0 [])
  /\ exists m s2,
    game_loop 1 c10_env c10_state = Ok true s2
    /\ st_board s2 = c10_player_board /\ st_inv s2 = c10_inv
    /\ st_trace s2 = [] ++ [EvChooseMove (Some m)].
Proof.
  assert (Hw : wait_for_player_move (st_board c10_state) c10_env c10_state
               = Ok (Some (I0, I0)) (mkState c10_player_board c10_inv 1 0 []))
    by (vm_compute; reflexivity).
  split; [exact Hw|].
  exact (out_of_blocks_ends_game c10_env c10_state
           (mkState c10_player_board c10_inv 1 0 []) (I0, I0) 0
           (fun _ => conj (Permutation_refl _) (Permutation_refl _))
           Hw eq_refl eq_refl eq_refl eq_refl).
Defined.

(** ** Further properties of the code *)

Lemma first_free_in cells b m : first_free cells b = Some m -> In m cells.
Proof.
  induction cells as [|[r c] rest IH]; simpl; [discriminate|].
  destruct (get b r c =? 0); [intro H; injection H as <-; now left|].
  intro H; right; exact (IH H).
Qed.

Lemma first_free_found cells b r c :
  In (r, c) cells -> get b r c = 0 -> exists m, first_free cells b = Some m.
Proof.
  intros Hin H0. destruct (first_free cells b) as [m|] eqn:E; [now exists m|].
  exfalso. exact (first_free_none cells b E r c Hin H0).
Qed.

(** [get_robot_move] without an immediate robot win: it blocks the first
    cell (row-major) where the player would win, and otherwise takes the
    centre when it is empty. *)
Theorem get_robot_move_block_then_center corners edges b
  (Hnowin : first_winning_cell 2 b = None) :
  (forall m, first_winning_cell 1 b = Some m ->
     fst (get_robot_move corners edges b) = Some m)
  /\ (first_winning_cell 1 b = None -> get b I1 I1 = 0 ->
      fst (get_robot_move corners edges b) = Some (I1, I1)).
Proof.
  rewrite get_robot_move_eq, Hnowin. simpl. split.
  - intros m Hm. rewrite Hm. reflexivity.
  - intros Hn Hc. rewrite Hn, Hc. reflexivity.
Qed.

Lemma get_robot_move_block_then_center_witness :
  first_winning_cell 2 (of_rows (1, 1, 0) (0, 2, 0) (0, 0, 0)) = None
  /\ fst (get_robot_move corners0 edges0 (of_rows (1, 1, 0) (0, 2, 0) (0, 0, 0)))
     = Some (I0, I2).
Proof.
  assert (H : first_winning_cell 2 (of_rows (1, 1, 0) (0, 2, 0) (0, 0, 0)) = None)
    by reflexivity.
  split; [exact H|].
  exact (proj1 (get_robot_move_block_then_center corners0 edges0 _ H) (I0, I2) eq_refl).
Defined.

(** When there is no win to take or block and the centre is taken,
    [get_robot_move] returns an empty corner whenever one is empty, and
    an edge only when every corner is occupied. *)
Theorem get_robot_move_corner_before_edge corners edges b
  (Hc : Permutation corners corners0) (He : Permutation edges edges0)
  (Hnowin : first_winning_cell 2 b = None)
  (Hnoblock : first_winning_cell 1 b = None)
  (Hcenter : get b I1 I1 <> 0) :
  (forall r c, fst (get_robot_move corners edges b) = Some (r, c) ->
     get b r c = 0
     /\ (In (r, c) corners0
         \/ (In (r, c) edges0 /\ forall r' c', In (r', c') corners0 -> get b r' c' <> 0)))
  /\ ((exists r c, In (r, c) corners0 /\ get b r c = 0) ->
      exists r c, fst (get_robot_move corners edges b) = Some (r, c)
                  /\ In (r, c) corners0).
Proof.
  rewrite get_robot_move_eq, Hnowin, Hnoblock. cbn [fst].
  destruct (Z.eqb_spec (get b I1 I1) 0) as [H0|_]; [contradiction|].
  destruct (first_free corners b) as [[r0 c0]|] eqn:E.
  - pose proof (first_free_some _ _ _ _ E) as Hz.
    assert (Hin : In (r0, c0) corners0)
      by (eapply Permutation_in; [exact Hc|eapply first_free_in; exact E]).
    split.
    + intros r c H; injection H as <- <-. split; [exact Hz|left; exact Hin].
    + intros _. exists r0, c0. split; [reflexivity|exact Hin].
  - assert (Hall : forall r' c', In (r', c') corners0 -> get b r' c' <> 0).
    { intros r' c' Hin. apply (first_free_none _ _ E).
      eapply Permutation_in; [apply Permutation_sym, Hc|exact Hin]. }
    split.
    + intros r c H. split; [exact (first_free_some _ _ _ _ H)|right; split; [|exact Hall]].
      eapply Permutation_in; [exact He|eapply first_free_in; exact H].
    + intros [r [c [Hin Hz]]]. exfalso. exact (Hall r c Hin Hz).
Qed.

Lemma get_robot_move_corner_before_edge_witness :
  Permutation corners0 corners0 /\ Permutation edges0 edges0
  /\ first_winning_cell 2 (of_rows (1, 0, 0) (0, 2, 0) (0, 0, 0)) = None
  /\ first_winning_cell 1 (of_rows (1, 0, 0) (0, 2, 0) (0, 0, 0)) = None
  /\ exists r c,
       fst (get_robot_move corners0 edges0 (of_rows (1, 0, 0) (0, 2, 0) (0, 0, 0)))
       = Some (r, c) /\ In (r, c) corners0.
Proof.
  split; [apply Permutation_refl|split; [apply Permutation_refl|]].
  split; [reflexivity|split; [reflexivity|]].
  apply (get_robot_move_corner_before_edge corners0 edges0
           (of_rows (1, 0, 0) (0, 2, 0) (0, 0, 0)) (Permutation_refl _) (Permutation_refl _)
           eq_refl eq_refl).
  - discriminate.
  - exists I0, I2. split; [simpl; tauto|reflexivity].
Defined.

Lemma scan_blocks_cases i l :
  (fst (scan_blocks i l) = None /\ snd (scan_blocks i l) = l /\ forallb (fun u => u) l = true)
  \/ (exists k rest, l = repeat true k ++ false :: rest
        /\ scan_blocks i l = (Some (i + k + 1)%nat, repeat true (S k) ++ rest)).
Proof.
  revert i; induction l as [|u rest IH]; intro i.
  - left; repeat split.
  - destruct u; simpl.
    + destruct (IH (S i)) as [[H1 [H2 H3]]|[k [rest' [E1 E2]]]].
      * left. destruct (scan_blocks (S i) rest) as [r l']. simpl in *.
        subst. repeat split; assumption.
      * right. exists (S k), rest'. rewrite E2, E1. split; [reflexivity|].
        f_equal. f_equal. lia.
    + right. exists 0%nat, rest. split; [reflexivity|]. rewrite Nat.add_0_r. reflexivity.
Qed.

(** [get_next_available_block] returns [None] exactly when every slot of
    the side is used, and leaves the list as it is; otherwise it returns
    the 1-based index of the first unused slot and marks that slot, and
    only that slot, used.  The other side's list is never touched. *)
Theorem get_next_available_block_spec is_robot_block inv :
  let '(r, inv') := get_next_available_block is_robot_block inv in
  (r = None <-> forallb (fun u => u) (blocks_used is_robot_block inv) = true)
  /\ (r = None -> inv' = inv)
  /\ (forall n, r = Some n ->
        exists k rest, blocks_used is_robot_block inv = repeat true k ++ false :: rest
          /\ n = (k + 1)%nat
          /\ blocks_used is_robot_block inv' = repeat true (S k) ++ rest)
  /\ blocks_used (negb is_robot_block) inv' = blocks_used (negb is_robot_block) inv.
Proof.
  unfold get_next_available_block.
  destruct (scan_blocks_cases 0 (blocks_used is_robot_block inv))
    as [[H1 [H2 H3]]|[k [rest [E1 E2]]]].
  - destruct (scan_blocks 0 (blocks_used is_robot_block inv)) as [r l]. simpl in *. subst.
    split; [split; [intros _; exact H3|reflexivity]|].
    split; [intros _; destruct is_robot_block, inv; reflexivity|].
    split; [discriminate|destruct is_robot_block; reflexivity].
  - rewrite E2.
    split; [split; [discriminate|]|].
    { rewrite E1. intro H. rewrite forallb_app in H. apply andb_true_iff in H.
      destruct H as [_ H]. discriminate. }
    split; [discriminate|].
    split; [|destruct is_robot_block; reflexivity].
    intros n Hn. injection Hn as <-. exists k, rest.
    rewrite blocks_used_set. split; [exact E1|split; reflexivity].
Qed.

(** [detect_player_move] makes one perception call.  When it fails the
    global board stays and no move is reported; when it succeeds the
    global board becomes the perceived one, and a reported move is a cell
    empty in the snapshot and a player mark in the new board.  No other
    part of the state changes. *)
Theorem detect_player_move_spec prev e s :
  exists r s', detect_player_move prev e s = Ok r s'
    /\ st_polls s' = S (st_polls s) /\ st_inv s' = st_inv s
    /\ st_shuffles s' = st_shuffles s /\ st_trace s' = st_trace s
    /\ match percept e (st_polls s) with
       | None => r = None /\ st_board s' = st_board s
       | Some b => st_board s' = b
                   /\ (forall r0 c0, r = Some (r0, c0) -> get prev r0 c0 = 0 /\ get b r0 c0 = 1)
                   /\ (r = None -> no_player_change prev (Some b))
       end.
Proof.
  unfold detect_player_move, bind at 1, analyze_board_state.
  destruct (percept e (st_polls s)) as [b|] eqn:Ep.
  - unfold bind, get_board, ret. simpl.
    eexists _, _. split; [reflexivity|]. simpl. repeat split.
    + unfold find_player_move in H. apply find_some in H. destruct H as [_ H].
      apply andb_true_iff in H. now apply Z.eqb_eq.
    + unfold find_player_move in H. apply find_some in H. destruct H as [_ H].
      apply andb_true_iff in H. now apply Z.eqb_eq.
    + intros Hn r0 c0 [H0 H1].
      assert (Hf := find_none _ _ Hn (r0, c0) (in_row_major r0 c0)). simpl in Hf.
      rewrite H0, H1 in Hf. discriminate.
  - unfold ret. eexists _, _. split; [reflexivity|]. simpl. repeat split.
Qed.

(** [wait_for_player_move] never raises, makes at most
    [polls_before_timeout] perception calls, never moves the arm, never
    calls [get_robot_move] and never touches the inventory; a move it
    returns is a cell empty in the snapshot that holds a player mark on
    the global board it leaves. *)
Theorem wait_for_player_move_spec prev e s :
  exists r s', wait_for_player_move prev e s = Ok r s'
    /\ (st_polls s' <= st_polls s + polls_before_timeout e)%nat
    /\ st_inv s' = st_inv s /\ st_shuffles s' = st_shuffles s
    /\ st_trace s' = st_trace s
    /\ (forall r0 c0, r = Some (r0, c0) ->
          get prev r0 c0 = 0 /\ get (st_board s') r0 c0 = 1).
Proof.
  unfold wait_for_player_move. generalize (polls_before_timeout e) as n.
  intro n. revert s. induction n as [|n IH]; intro s.
  - exists None, s. repeat split; try lia; discriminate.
  - cbn [wait_loop]. unfold bind at 1.
    destruct (detect_player_move_spec prev e s)
      as [r [s1 [E [P [I [Sh [T M]]]]]]].
    rewrite E.
    destruct r as [[r0 c0]|].
    + exists (Some (r0, c0)), s1. unfold ret.
      destruct (percept e (st_polls s)) as [b|]; [|destruct M; discriminate].
      destruct M as [Hb [Hm _]]. rewrite Hb.
      split; [reflexivity|]. split; [lia|].
      split; [exact I|]. split; [exact Sh|]. split; [exact T|].
      intros r1 c1 Hr; injection Hr as <- <-. exact (Hm r0 c0 eq_refl).
    + destruct (IH s1) as [r' [s' [E' [P' [I' [Sh' [T' M']]]]]]].
      exists r', s'. rewrite E'.
      split; [reflexivity|]. split; [lia|].
      split; [congruence|]. split; [congruence|]. split; [congruence|].
      intros r1 c1 Hr. exact (M' r1 c1 Hr).
Qed.

(** A perceived board holding a value other than 0, 1 or 2 makes
    [display_board] raise [KeyError] right after the player's move is
    detected: the loop iteration crashes before any win or draw check and
    before the robot acts. *)
Theorem turn_invalid_board_raises e s0 s1 pm
  (Hwait : wait_for_player_move (st_board s0) e s0 = Ok (Some pm) s1)
  (Hinvalid : board_valid (st_board s1) = false) :
  turn e s0 = Crash s1.
Proof.
  unfold wait_for_player_move in Hwait.
  cbv [turn bind get_board wait_for_player_move ret display_board crash].
  rewrite Hwait, Hinvalid. reflexivity.
Qed.

Lemma turn_invalid_board_raises_witness :
  wait_for_player_move empty_board
      (mkEnv (fun _ => Some (of_rows (1, 0, 0) (0, 3, 0) (0, 0, 0)))
             (fun _ => corners0) (fun _ => edges0) 3 true)
      (mkState empty_board fresh_inventory 0 0 [])
    = Ok (Some (I0, I0))
         (mkState (of_rows (1, 0, 0) (0, 3, 0) (0, 0, 0)) fresh_inventory 1 0 [])
  /\ board_valid (of_rows (1, 0, 0) (0, 3, 0) (0, 0, 0)) = false
  /\ turn (mkEnv (fun _ => Some (of_rows (1, 0, 0) (0, 3, 0) (0, 0, 0)))
                 (fun _ => corners0) (fun _ => edges0) 3 true)
          (mkState empty_board fresh_inventory 0 0 [])
     = Crash (mkState (of_rows (1, 0, 0) (0, 3, 0) (0, 0, 0)) fresh_inventory 1 0 []).
Proof.
  assert (Hw : wait_for_player_move empty_board
      (mkEnv (fun _ => Some (of_rows (1, 0, 0) (0, 3, 0) (0, 0, 0)))
             (fun _ => corners0) (fun _ => edges0) 3 true)
      (mkState empty_board fresh_inventory 0 0 [])
    = Ok (Some (I0, I0))
         (mkState (of_rows (1, 0, 0) (0, 3, 0) (0, 0, 0)) fresh_inventory 1 0 []))
    by (vm_compute; reflexivity).
  split; [exact Hw|split; [reflexivity|]].
  exact (turn_invalid_board_raises _ (mkState empty_board fresh_inventory 0 0 []) _ _ Hw eq_refl).
Defined.






(** *** Invariants of the game loop *)

Section Keeps.

Variable P : state -> Prop.
Hypothesis P_frame : forall s b n m, P s -> P (mkState b (st_inv s) n m (st_trace s)).
Hypothesis P_emit : forall s ev, is_pick ev = false -> P s ->
  P (mkState (st_board s) (st_inv s) (st_polls s) (st_shuffles s) (st_trace s ++ [ev])).
Hypothesis P_pick : keeps P (pick_block true).

Lemma keeps_bind {A B} (m : M A) (f : A -> M B) :
  keeps P m -> (forall a, keeps P (f a)) -> keeps P (bind m f).
Proof.
  intros Hm Hf e s Hs. unfold bind. specialize (Hm e s Hs).
  destruct (m e s) as [a s'|s'|s']; cbn [outcome_state] in *; [apply (Hf a)|..]; exact Hm.
Qed.

Lemma keeps_ret {A} (a : A) : keeps P (ret a).
Proof. intros e s Hs; exact Hs. Qed.

Lemma keeps_crash {A} : keeps P (@crash A).
Proof. intros e s Hs; exact Hs. Qed.

Lemma keeps_out_of_fuel {A} : keeps P (@out_of_fuel A).
Proof. intros e s Hs; exact Hs. Qed.

Lemma keeps_get_board : keeps P get_board.
Proof. intros e s Hs; exact Hs. Qed.

Lemma keeps_put_board b : keeps P (put_board b).
Proof. intros e s Hs. exact (P_frame s b _ _ Hs). Qed.

Lemma keeps_emit ev : is_pick ev = false -> keeps P (emit ev).
Proof. intros Hev e s Hs. exact (P_emit s ev Hev Hs). Qed.

Lemma keeps_analyze : keeps P analyze_board_state.
Proof.
  intros e s Hs. unfold analyze_board_state. cbv zeta.
  destruct (percept e (st_polls s)); cbn [outcome_state]; apply P_frame; exact Hs.
Qed.

Lemma keeps_detect prev : keeps P (detect_player_move prev).
Proof.
  unfold detect_player_move. apply keeps_bind; [apply keeps_analyze|].
  intros [|]; [apply keeps_bind; [apply keeps_get_board|intros; apply keeps_ret]|apply keeps_ret].
Qed.

Lemma keeps_wait_loop prev n : keeps P (wait_loop prev n).
Proof.
  induction n as [|n IH]; cbn [wait_loop]; [apply keeps_ret|].
  apply keeps_bind; [apply keeps_detect|]. intros [m|]; [apply keeps_ret|exact IH].
Qed.

Lemma keeps_wait prev : keeps P (wait_for_player_move prev).
Proof. intros e s Hs. exact (keeps_wait_loop prev _ e s Hs). Qed.

Lemma keeps_display : keeps P display_board.
Proof.
  unfold display_board. apply keeps_bind; [apply keeps_get_board|].
  intros b. destruct (board_valid b); [apply keeps_ret|apply keeps_crash].
Qed.

Lemma keeps_robot_move : keeps P robot_move.
Proof.
  intros e s Hs. unfold robot_move. cbv zeta.
  destruct (get_robot_move _ _ _) as [m b]. cbn [outcome_state].
  apply (P_emit (mkState b (st_inv s) (st_polls s) (S (st_shuffles s)) (st_trace s))
           (EvChooseMove m) eq_refl).
  apply P_frame; exact Hs.
Qed.

Ltac keeps_step :=
  first [ apply keeps_ret | apply keeps_crash | apply keeps_out_of_fuel
        | apply keeps_get_board | apply keeps_put_board
        | apply keeps_emit; reflexivity | apply keeps_analyze | apply keeps_wait
        | apply keeps_display | apply keeps_robot_move | apply P_pick
        | apply keeps_bind; [|intro]
        | match goal with
          | |- keeps _ (match ?x with _ => _ end) => destruct x
          | |- keeps _ (if ?x then _ else _) => destruct x
          end
        | solve [intros ?e ?s ?Hs; exact Hs] ].

Lemma keeps_robot_turn : keeps P robot_turn.
Proof. unfold robot_turn, place_block, move_to_home. repeat keeps_step. Qed.

Lemma keeps_turn : keeps P turn.
Proof. unfold turn. repeat (apply keeps_robot_turn || keeps_step). Qed.

Lemma keeps_game_loop fuel : keeps P (game_loop fuel).
Proof.
  induction fuel as [|f IH]; cbn [game_loop]; [apply keeps_out_of_fuel|].
  apply keeps_bind; [apply keeps_turn|]. intros [| |]; [apply keeps_ret|apply keeps_ret|exact IH].
Qed.

(** [run_game] keeps [P] once [reset_game] has established it. *)
Lemma keeps_run_game fuel e s :
  P (mkState empty_board fresh_inventory (st_polls s) (st_shuffles s) (st_trace s)) ->
  P (outcome_state (run_game fuel e s)).
Proof.
  intros H. unfold run_game.
  match goal with |- P (outcome_state (bind reset_game ?k e s)) =>
    assert (Hk : keeps P (k tt)); [cbv beta|exact (Hk e _ H)] end.
  unfold move_to_home. repeat (apply (keeps_game_loop fuel) || keeps_step).
Qed.

End Keeps.

Lemma count_true_repeat k l : count_true (repeat true k ++ l) = (k + count_true l)%nat.
Proof. induction k as [|k IH]; [reflexivity|]. unfold count_true in *. simpl. now rewrite IH. Qed.

Lemma count_picks_snoc tr ev :
  count_picks (tr ++ [ev]) = (count_picks tr + if is_pick ev then 1 else 0)%nat.
Proof.
  unfold count_picks. rewrite filter_app, length_app. cbn [filter]. destruct (is_pick ev); reflexivity.
Qed.

(** [run_game] never touches the player's block inventory: whatever the
    outcome (return, exception, or a loop that does not end),
    [blue_blocks_used] is left as [reset_game] set it, five [False]. *)
Theorem run_game_keeps_blue fuel e s :
  blue_blocks_used (st_inv (outcome_state (run_game fuel e s))) = repeat false 5.
Proof.
  apply (keeps_run_game (fun s => blue_blocks_used (st_inv s) = repeat false 5)).
  - intros s' b n m H. exact H.
  - intros s' ev _ H. exact H.
  - intros e' s' H. unfold pick_block, get_next_available_block. cbn [blocks_used].
    destruct (scan_blocks 0 (red_blocks_used (st_inv s'))) as [[n|] l].
    + destruct ((1 <=? n)%nat && (n <=? 5)%nat); exact H.
    + exact H.
  - reflexivity.
Qed.

(** Every red slot [run_game] marks used goes with one [pick_block] arm
    sequence, and every arm sequence with one slot: whatever the outcome,
    the picks it added to the trace number exactly the red slots used, and
    [red_blocks_used] keeps its five entries. *)
Theorem run_game_picks_match_red fuel e s :
  let s' := outcome_state (run_game fuel e s) in
  length (red_blocks_used (st_inv s')) = 5%nat
  /\ count_picks (st_trace s') = (count_picks (st_trace s) + count_true (red_blocks_used (st_inv s')))%nat.
Proof.
  cbv zeta.
  apply (keeps_run_game (fun s' => length (red_blocks_used (st_inv s')) = 5%nat
      /\ count_picks (st_trace s') = (count_picks (st_trace s) + count_true (red_blocks_used (st_inv s')))%nat)).
  - intros s' b n m H. exact H.
  - intros s' ev Hev [H1 H2]. cbn [st_inv st_trace]. rewrite count_picks_snoc, Hev.
    split; [exact H1|lia].
  - intros e' s' [H1 H2]. unfold pick_block, get_next_available_block. cbn [blocks_used].
    destruct (scan_blocks_cases 0 (red_blocks_used (st_inv s')))
      as [[E1 [E2 _]]|[k [rest [E1 E2]]]].
    + destruct (scan_blocks 0 (red_blocks_used (st_inv s'))) as [r l].
      cbn [fst snd] in E1, E2. subst r l. cbn [outcome_state set_blocks_used st_inv
        red_blocks_used st_trace]. split; assumption.
    + rewrite E2. rewrite E1 in H1, H2. rewrite length_app in H1. cbn [length] in H1.
      rewrite repeat_length in H1.
      assert (Hb : ((1 <=? 0 + k + 1) && (0 + k + 1 <=? 5))%nat = true)
        by (apply andb_true_iff; split; apply Nat.leb_le; lia).
      rewrite Hb. cbv [bind emit ret]. cbn [outcome_state set_blocks_used st_inv
        red_blocks_used st_trace].
      rewrite count_picks_snoc, length_app, repeat_length, !count_true_repeat. cbn [is_pick].
      rewrite count_true_repeat in H2. unfold count_true in H2 |- *. cbn [filter length] in H2.
      split; lia.
  - split; [reflexivity|cbn [st_trace st_inv fresh_inventory red_blocks_used]; unfold count_true; cbn; lia].
Qed.

(** *** Servo steps *)




(** *** Arm sequences of [pick_block] and [place_block] *)

Lemma set_angle_read_self k n a : kit_read (set_angle k n a) n = ReadAngle a.
Proof. unfold set_angle. cbn [kit_read]. rewrite Nat.eqb_refl. reflexivity. Qed.

(** One smooth move of a servo that does not read back as [None]
    succeeds, leaves the servo reading the target, and leaves the other
    servos' reads alone. *)
Lemma mss_reads k servo t :
  kit_read k servo <> ReadNone ->
  exists k', move_servo_smoothly k servo t = Some k'
    /\ reads_about k' servo t
    /\ (forall n, n <> servo -> kit_read k' n = kit_read k n).
Proof.
  intro Hr. unfold move_servo_smoothly.
  assert (Hc : exists cur, current_of (kit_read k servo) t = Some cur)
    by (destruct (kit_read k servo); [exists t|contradiction|exists q]; reflexivity).
  destruct Hc as [cur Hc]. rewrite Hc.
  eexists. split; [reflexivity|]. split.
  - unfold default_steps. cbn [seq command_steps]. unfold reads_about. rewrite set_angle_read_self.
    eexists; split; [reflexivity|]. simpl. field.
  - intros n Hn. apply command_steps_read; exact Hn.
Qed.


Ltac kit_reads :=
  repeat match goal with
  | O : forall n, n <> ?s -> kit_read ?k' n = kit_read ?k n |- context [kit_read ?k' ?m] =>
      rewrite (O m) by (unfold_servos; unfold SERVO_CLAW; lia)
  | O : forall n, (?b < n)%nat -> kit_read ?k' n = kit_read ?k n |- context [kit_read ?k' ?m] =>
      rewrite (O m) by (unfold_servos; unfold SERVO_CLAW; lia)
  end.






(** *** [calibrate_servos] and [test_block_positions] *)









Lemma read_none_dec (a : angle_read) : {a = ReadNone} + {a <> ReadNone}.
Proof. destruct a; [right; discriminate|left; reflexivity|right; discriminate]. Qed.

(** One step of a chain of smooth moves that must raise: either the
    servo now reads back as [None] (the servo of [HN], untouched so far),
    or the move runs and the chain goes on, or the moved servo itself
    reads [None] and the chain raises there. *)
Ltac walk_none :=
  repeat match goal with
  | |- obind (move_servo_smoothly ?k ?s ?t) _ = None =>
      first
        [ unfold move_servo_smoothly at 1; kit_reads; unfold_servos; unfold SERVO_CLAW;
          match goal with HN : kit_read _ _ = ReadNone |- _ => rewrite HN end; reflexivity
        | let k' := fresh "k" in let E := fresh "E" in let O := fresh "O" in
          let Es := fresh "Es" in
          destruct (read_none_dec (kit_read k s)) as [Es|Es];
          [ unfold move_servo_smoothly at 1; rewrite Es; reflexivity
          | destruct (mss_reads k s t Es) as [k' [E [_ O]]]; rewrite E; cbn [obind] ] ]
  end.

(** When some servo of the arm (0 to 5) reads back as [None],
    [calibrate_servos] raises [TypeError]: it reaches the first move of
    that servo with no earlier move having set it. *)
Theorem calibrate_servos_none k
  (HN : exists n, (n <= 5)%nat /\ kit_read k n = ReadNone) :
  calibrate_servos k = None.
Proof.
  destruct HN as [n [Hn HN]].
  unfold calibrate_servos, open_claw, close_claw, move_to_home_motion, move_arm_to_position.
  destruct n as [|[|[|[|[|[|n]]]]]]; [..|lia]; walk_none.
Qed.

Lemma calibrate_servos_none_witness :
  (exists n, (n <= 5)%nat /\ kit_read (mkKit (fun n => if Nat.eqb n 2 then ReadNone else ReadRaises) []) n = ReadNone)
  /\ calibrate_servos (mkKit (fun n => if Nat.eqb n 2 then ReadNone else ReadRaises) []) = None.
Proof.
  assert (H : exists n, (n <= 5)%nat /\ kit_read (mkKit (fun n => if Nat.eqb n 2 then ReadNone else ReadRaises) []) n = ReadNone)
    by (exists 2%nat; split; [lia|reflexivity]).
  split; [exact H|].
  exact (calibrate_servos_none _ H).
Defined.
